(** * The thermodynamics module of CLASS (include/thermodynamics.h)

    A shallow embedding of the declarations of [thermodynamics.h]: the
    configuration enumerations, the two smooth step macros [f1] and [f2],
    the heating parameters and the approximation bookkeeping of the
    integration workspace.

    Numbers.  A C [double] is idealised as an exact number: a real ([R])
    where the code takes logarithms, exponentials or where a derivative is
    taken, a rational ([Q]) where redshifts are only negated and compared,
    so that those definitions evaluate.  The two smooth steps are also
    given on binary64 floats ([f1_float], [f2_float]), term for term as the
    macros are written, and evaluated at the ends of their windows. *)

From Stdlib Require Import String Floats Reals Psatz ZArith QArith List Bool Permutation.
Import ListNotations.

(** ** Enumerations *)

(** [enum recombination_algorithm]: list of possible recombination
    algorithms. *)
Inductive recombination_algorithm : Type :=
| recfast
| hyrec.

(** [enum reionization_parametrization]: list of possible reionization
    schemes, in the order of the header. *)
Inductive reionization_parametrization : Type :=
| reio_none        (* no reionization *)
| reio_camb        (* reionization parameterized like in CAMB *)
| reio_bins_tanh   (* binned history with tanh interpolation between bins *)
| reio_half_tanh   (* half a tanh, instead of the full tanh *)
| reio_many_tanh   (* similar to reio_camb but with more than one tanh *)
| reio_inter.      (* linear interpolation between specified points *)

(** [enum reionization_z_or_tau]: is the input parameter the reionization
    redshift or the optical depth? *)
Inductive reionization_z_or_tau : Type :=
| reio_z
| reio_tau.

(** The integer a C compiler gives each enumerator: the first is 0 and each
    next one is one more. *)
Definition reionization_parametrization_code (p : reionization_parametrization) : Z :=
  match p with
  | reio_none => 0
  | reio_camb => 1
  | reio_bins_tanh => 2
  | reio_half_tanh => 3
  | reio_many_tanh => 4
  | reio_inter => 5
  end.

(** Every enumerator of [reionization_parametrization], in declaration
    order. *)
Definition all_reionization_parametrizations : list reionization_parametrization :=
  [reio_none; reio_camb; reio_bins_tanh; reio_half_tanh; reio_many_tanh; reio_inter].

(** The enumerator a given integer stands for, if any. *)
Definition reionization_parametrization_of_code (c : Z) : option reionization_parametrization :=
  find (fun p => Z.eqb (reionization_parametrization_code p) c)
       all_reionization_parametrizations.

(** The five reionization parametrization choices as the specification
    words them (configuration surface): none, single-tanh, binned-tanh,
    multi-tanh, piecewise-linear.  This type follows the specification, not
    the header; it is what the enumeration is compared with. *)
Inductive spec_reio_choice : Type :=
| choice_none
| choice_single_tanh
| choice_binned_tanh
| choice_multi_tanh
| choice_piecewise_linear.

(** The correspondence read off the header's comments: each enumerator is
    sent to the specification's option it describes; [reio_half_tanh]
    ("half a tanh, instead of the full tanh") is none of the five. *)
Definition spec_choice_of (p : reionization_parametrization) : option spec_reio_choice :=
  match p with
  | reio_none => Some choice_none
  | reio_camb => Some choice_single_tanh
  | reio_bins_tanh => Some choice_binned_tanh
  | reio_half_tanh => None
  | reio_many_tanh => Some choice_multi_tanh
  | reio_inter => Some choice_piecewise_linear
  end.

(** The enumerator that realises an option of the specification. *)
Definition enum_of_spec_choice (c : spec_reio_choice) : reionization_parametrization :=
  match c with
  | choice_none => reio_none
  | choice_single_tanh => reio_camb
  | choice_binned_tanh => reio_bins_tanh
  | choice_multi_tanh => reio_many_tanh
  | choice_piecewise_linear => reio_inter
  end.

(** ** The smooth step macros

    [#define f1(x) (-0.75*x*(x*x/3.-1.)+0.5)]: goes from 0 to 1 when x goes
    from -1 to 1.
    [#define f2(x) (x*x*(0.5-x/3.)*6.)]: goes from 0 to 1 when x goes from
    0 to 1. *)

Definition f1 (x : R) : R := (-0.75 * x * (x * x / 3 - 1) + 0.5)%R.

Definition f2 (x : R) : R := (x * x * (0.5 - x / 3) * 6)%R.

(** The same two expressions on binary64 floats, operation for operation. *)
Definition f1_float (x : float) : float := (-0.75 * x * (x * x / 3 - 1) + 0.5)%float.

Definition f2_float (x : float) : float := (x * x * (0.5 - x / 3) * 6)%float.

(** The derivatives of the two polynomials, written out. *)
Definition f1_deriv (x : R) : R := (0.75 * (1 - x * x))%R.

Definition f2_deriv (x : R) : R := (6 * x * (1 - x))%R.

(** ** Status and error message

    Every function of the module returns an [int] status and reports
    through an [ErrorMsg] zone; a call is modelled by the value it leaves
    behind on success or by the message on failure. *)

Definition ErrorMsg : Type := string.

Inductive class_status (A : Type) : Type :=
| _SUCCESS_ (a : A)
| _FAILURE_ (msg : ErrorMsg).

Arguments _SUCCESS_ {A} a.
Arguments _FAILURE_ {A} msg.

(** ** Energy injection parameters: [struct thermo_heating_parameters] *)

Record thermo_heating_parameters : Type := {
  annihilation : R;            (* f <sigma*v> / m_cdm *)
  annihilation_variation : R;  (* curvature of the log-log parabola, must be negative *)
  annihilation_z : R;          (* z at which F(annihilation_z) = annihilation *)
  annihilation_zmax : R;       (* redshift above which the rate is maximal *)
  annihilation_zmin : R;       (* redshift below which the rate is constant *)
  annihilation_f_halo : R;
  annihilation_z_halo : R;
  has_on_the_spot : bool;
  decay : R
}.

(** The abscissa of the log-log plane, measured from the maximum:
    log((1+z)/(1+zmax)). *)
Definition loglog_abscissa (pthp : thermo_heating_parameters) (z : R) : R :=
  ln ((1 + z) / (1 + annihilation_zmax pthp)).

(** Modelled from the spec: the body of
    [thermodynamics_solve_energy_injection] is not in the header, so the
    annihilation profile F(z) it evaluates is taken from the documentation
    of [annihilation_variation], [annihilation_z], [annihilation_zmax] and
    [annihilation_zmin] in the header and from section 4.2 of the
    specification: a parabola in log(1+z) versus log(rate), of curvature
    [annihilation_variation], with its maximum in zmax, going through
    F(annihilation_z) = annihilation.  This is the parabola itself, at any
    z. *)
Definition annihilation_parabola (pthp : thermo_heating_parameters) (z : R) : R :=
  (annihilation pthp *
   exp (annihilation_variation pthp *
        (loglog_abscissa pthp z * loglog_abscissa pthp z
         - loglog_abscissa pthp (annihilation_z pthp)
           * loglog_abscissa pthp (annihilation_z pthp))))%R.

(** Modelled from the spec: the annihilation profile of the absent
    [thermodynamics_solve_energy_injection]: the parabola between zmin and
    zmax, and outside this range the rate is held at its boundary value. *)
Definition annihilation_at_z (pthp : thermo_heating_parameters) (z : R) : R :=
  if Rlt_dec (annihilation_zmax pthp) z then
    annihilation_parabola pthp (annihilation_zmax pthp)
  else if Rlt_dec (annihilation_zmin pthp) z then
    annihilation_parabola pthp z
  else
    annihilation_parabola pthp (annihilation_zmin pthp).

(** The slope of the parabola branch at z. *)
Definition annihilation_parabola_deriv (pthp : thermo_heating_parameters) (z : R) : R :=
  (annihilation_parabola pthp z
   * (annihilation_variation pthp * (2 * loglog_abscissa pthp z / (1 + z))))%R.

(** One-sided derivatives: the limit of the difference quotient from
    above and from below. *)
Definition right_derivative (f : R -> R) (x l : R) : Prop :=
  forall eps : R, (0 < eps)%R ->
    exists delta : R, (0 < delta)%R /\
      forall h : R, (0 < h < delta)%R -> (Rabs ((f (x + h) - f x) / h - l) < eps)%R.

Definition left_derivative (f : R -> R) (x l : R) : Prop :=
  forall eps : R, (0 < eps)%R ->
    exists delta : R, (0 < delta)%R /\
      forall h : R, (- delta < h < 0)%R -> (Rabs ((f (x + h) - f x) / h - l) < eps)%R.

(** The parameter combinations the claim ranges over: zmin < zmax and a
    negative curvature, with redshifts above -1 so that 1+z is positive. *)
Definition valid_annihilation_window (pthp : thermo_heating_parameters) : Prop :=
  (-1 < annihilation_zmin pthp)%R /\
  (annihilation_zmin pthp < annihilation_zmax pthp)%R /\
  (annihilation_variation pthp < 0)%R.

(** A window for trying the profile: zmin = 0, zmax = 1, curvature -1,
    F(1) = 1. *)
Definition unit_window : thermo_heating_parameters :=
  {| annihilation := 1; annihilation_variation := -1; annihilation_z := 1;
     annihilation_zmax := 1; annihilation_zmin := 0;
     annihilation_f_halo := 0; annihilation_z_halo := 0;
     has_on_the_spot := true; decay := 0 |}.

(** ** Approximation bookkeeping: [struct thermo_diffeq_workspace]

    The members that describe the approximation intervals.  The pointers
    to the integrated vector and to the recombination codes, the current
    ionization fractions and temperature do not enter the interval
    limits. *)

Record thermo_diffeq_workspace : Type := {
  index_ap_brec : nat;        (* approximation before recombination *)
  index_ap_He1 : nat;         (* 1st He-recombination (HeIII) *)
  index_ap_He1f : nat;        (* after 1st He recombination, before 2nd *)
  index_ap_He2 : nat;         (* start of 2nd He-recombination (HeII) *)
  index_ap_H : nat;           (* start of H-recombination (HI) *)
  index_ap_frec : nat;        (* full recombination *)
  index_ap_reio : nat;        (* reionization *)
  index_ap_reio_hyrec : nat;  (* reionization with HyRec *)
  ap_current : nat;           (* current fixed approximation scheme index *)
  ap_size : nat;              (* number of approximation intervals used during evolver loop *)
  ap_size_loaded : nat;       (* number of all approximations *)
  ap_z_limits : list Q;       (* ending limits of each approximation *)
  ap_z_limits_delta : list Q  (* smoothing deltas of each approximation *)
}.

(** The limits of the intervals in the integration variable mz = -z: the
    integration starts at [mz_ini], every approximation but the last ends
    at its own ending limit, and the last one ends at [mz_end]. *)
Definition interval_limits (ptdw : thermo_diffeq_workspace) (mz_ini mz_end : Q) : list Q :=
  mz_ini :: map Qopp (firstn (ap_size ptdw - 1) (ap_z_limits ptdw)) ++ [mz_end].

(** Modelled from the spec: the body of
    [thermodynamics_set_approximation_limits] is not in the header.  From
    section 4.1 of the specification and the members [ap_size] and
    [ap_z_limits] it reads: it gives the number of intervals
    ([interval_number]) and their limits ([interval_limit]), and signals a
    configuration error if the requested bounds are inverted. *)
Definition thermodynamics_set_approximation_limits
    (ptdw : thermo_diffeq_workspace) (mz_ini mz_end : Q) : class_status (nat * list Q) :=
  if Qlt_le_dec mz_end mz_ini then
    _FAILURE_ "thermodynamics_set_approximation_limits: the requested bounds are inverted"%string
  else
    _SUCCESS_ (ap_size ptdw, interval_limits ptdw mz_ini mz_end).

(** The (starting point, end point) of each interval, in order. *)
Fixpoint interval_pairs (limits : list Q) : list (Q * Q) :=
  match limits with
  | lo :: (hi :: _) as rest => (lo, hi) :: interval_pairs rest
  | _ => []
  end.

(** A point lies in a closed interval. *)
Definition in_interval (interval : Q * Q) (mz : Q) : Prop :=
  (fst interval <= mz /\ mz <= snd interval)%Q.

(** The list of the specification's tuples (regime, starting redshift,
    transition width): regime [index_ap] starts at the redshift
    -interval_limit[index_ap] and is smoothed over
    ap_z_limits_delta[index_ap]. *)
Definition regime_list (ptdw : thermo_diffeq_workspace) (limits : list Q) : list (nat * Q * Q) :=
  map (fun index_ap =>
         (index_ap, (- nth index_ap limits 0)%Q, nth index_ap (ap_z_limits_delta ptdw) 0%Q))
      (seq 0 (length limits - 1)).

(** Modelled from the spec: which output samples the driver takes from
    which regime (section 4.4: a boundary redshift belongs to exactly one
    regime's output).  Regime [index_ap] gives the samples from its
    starting point on and before the next starting point; the last regime
    also gives the final point.  An index that is not one of the intervals
    gives nothing. *)
Definition regime_output (limits : list Q) (index_ap : nat) (mz : Q) : bool :=
  Nat.ltb (S index_ap) (List.length limits) &&
  Qle_bool (nth index_ap limits 0%Q) mz &&
  (if Nat.eqb (S (S index_ap)) (List.length limits)
   then Qle_bool mz (nth (S index_ap) limits 0%Q)
   else negb (Qle_bool (nth (S index_ap) limits 0%Q) mz)).

(** The samples of an output grid that one regime gives. *)
Definition regime_samples (limits : list Q) (mz_output : list Q) (index_ap : nat) : list Q :=
  filter (regime_output limits index_ap) mz_output.

(** The samples all the regimes give, regime after regime. *)
Definition driver_samples (limits : list Q) (mz_output : list Q) : list Q :=
  flat_map (regime_samples limits mz_output) (seq 0 (length limits - 1)).

(** A list of redshifts that decreases strictly from each element to the
    next. *)
Fixpoint strictly_decreasing (zs : list Q) : Prop :=
  match zs with
  | z1 :: (z2 :: _) as rest => (z2 < z1)%Q /\ strictly_decreasing rest
  | _ => True
  end.

(** The same, in the integration variable: strictly increasing. *)
Fixpoint strictly_increasing (mzs : list Q) : Prop :=
  match mzs with
  | mz1 :: (mz2 :: _) as rest => (mz1 < mz2)%Q /\ strictly_increasing rest
  | _ => True
  end.

(** The order a configuration has to have for an integration from
    redshift -mz_ini down to -mz_end: there is at least one approximation,
    each of the first ap_size - 1 has an ending limit, and the initial
    redshift, these ending limits and the final redshift decrease
    strictly.  It is a condition on what the function is given, which the
    function does not test. *)
Definition ordered_ending_limits (ptdw : thermo_diffeq_workspace) (mz_ini mz_end : Q) : Prop :=
  (1 <= ap_size ptdw)%nat /\
  (ap_size ptdw - 1 <= length (ap_z_limits ptdw))%nat /\
  strictly_decreasing
    ((- mz_ini)%Q :: firstn (ap_size ptdw - 1) (ap_z_limits ptdw) ++ [(- mz_end)%Q]).

(** A workspace for trying the limits: three approximations ending at
    z = 8000, z = 3000 and z = 0. *)
Definition three_regimes : thermo_diffeq_workspace :=
  {| index_ap_brec := 0; index_ap_He1 := 1; index_ap_He1f := 2; index_ap_He2 := 3;
     index_ap_H := 4; index_ap_frec := 5; index_ap_reio := 6; index_ap_reio_hyrec := 7;
     ap_current := 0; ap_size := 3; ap_size_loaded := 3;
     ap_z_limits := [8000; 3000; 0]%Q; ap_z_limits_delta := [50; 50; 2]%Q |}.

(** The same workspace with the first two ending limits exchanged: the
    first approximation would end at z = 3000, below the end of the
    second at z = 8000. *)
Definition unordered_regimes : thermo_diffeq_workspace :=
  {| index_ap_brec := 0; index_ap_He1 := 1; index_ap_He1f := 2; index_ap_He2 := 3;
     index_ap_H := 4; index_ap_frec := 5; index_ap_reio := 6; index_ap_reio_hyrec := 7;
     ap_current := 0; ap_size := 3; ap_size_loaded := 3;
     ap_z_limits := [3000; 8000; 0]%Q; ap_z_limits_delta := [50; 50; 2]%Q |}.

(** ** Flags and limits

    [#define _YHE_BBN_ -1]: the value of YHe that asks for the helium
    fraction to be taken from BBN.  [_YHE_BIG_] and [_YHE_SMALL_]: maximal
    and minimal Y_He; [_Z_REC_MAX_] and [_Z_REC_MIN_]: the limits imposed on
    the recombination redshift. *)

Definition _YHE_BBN_ : R := (-1)%R.

Definition _YHE_BIG_ : R := 0.5%R.

Definition _YHE_SMALL_ : R := 0.01%R.

Definition _Z_REC_MAX_ : R := 2000%R.

Definition _Z_REC_MIN_ : R := 500%R.

(** * Properties *)

(** ** The reionization parametrization enumeration *)

Lemma all_reionization_parametrizations_complete :
  forall p : reionization_parametrization, In p all_reionization_parametrizations.
Proof. intros []; simpl; tauto. Qed.

Lemma all_reionization_parametrizations_NoDup :
  NoDup all_reionization_parametrizations.
Proof.
  unfold all_reionization_parametrizations.
  repeat (constructor; [simpl; intuition discriminate|]).
  constructor.
Qed.

Lemma spec_reio_choice_enumerated :
  forall c : spec_reio_choice,
    In c [choice_none; choice_single_tanh; choice_binned_tanh;
          choice_multi_tanh; choice_piecewise_linear].
Proof. intros []; simpl; tauto. Qed.

(** An injective function keeps a duplicate-free list duplicate-free. *)
Lemma NoDup_map_injective (A B : Type) (f : A -> B) (l : list A) :
  (forall a b, f a = f b -> a = b) -> NoDup l -> NoDup (map f l).
Proof.
  intros Hinj Hl. induction Hl as [|a l Hnotin _ IH]; simpl.
  - constructor.
  - constructor; [|exact IH].
    intro Hin. apply in_map_iff in Hin. destruct Hin as [b [Hfb Hb]].
    apply Hinj in Hfb. subst b. exact (Hnotin Hb).
Qed.

(** C8, as stated, fails: the enumeration cannot be put in one-to-one
    correspondence with the five options of the specification.  The
    enumerator [reio_half_tanh] is none of the five, and no assignment of
    the six enumerators to five options keeps distinct enumerators
    apart. *)
Lemma reionization_parametrization_not_five :
  spec_choice_of reio_half_tanh = None /\
  ~ (exists f : reionization_parametrization -> spec_reio_choice,
       forall a b, f a = f b -> a = b).
Proof.
  split; [reflexivity|].
  intros [f Hinj].
  assert (Hlen : (List.length (map f all_reionization_parametrizations)
                  <= List.length [choice_none; choice_single_tanh; choice_binned_tanh;
                                  choice_multi_tanh; choice_piecewise_linear])%nat).
  { apply NoDup_incl_length.
    - apply NoDup_map_injective; [exact Hinj|].
      exact all_reionization_parametrizations_NoDup.
    - intros c _. apply spec_reio_choice_enumerated. }
  simpl in Hlen. lia.
Qed.

(** C8, amended: the enumeration has exactly six values, numbered 0 to 5
    in the order none, single tanh ([reio_camb]), binned tanh, half tanh,
    many tanh, linear interpolation.  Each of the five options of the
    specification is realised by exactly one enumerator, and
    [reio_half_tanh] is the one enumerator outside them. *)
Theorem reionization_parametrization_six_values :
  (forall p, In p all_reionization_parametrizations) /\
  NoDup all_reionization_parametrizations /\
  List.length all_reionization_parametrizations = 6%nat /\
  map reionization_parametrization_code all_reionization_parametrizations
    = [0; 1; 2; 3; 4; 5]%Z /\
  (forall p, reionization_parametrization_of_code (reionization_parametrization_code p)
             = Some p) /\
  (forall c p, reionization_parametrization_of_code c = Some p <->
               c = reionization_parametrization_code p) /\
  (forall c, spec_choice_of (enum_of_spec_choice c) = Some c) /\
  (forall p c, spec_choice_of p = Some c <-> p = enum_of_spec_choice c) /\
  (forall p, spec_choice_of p = None <-> p = reio_half_tanh).
Proof.
  split; [exact all_reionization_parametrizations_complete|].
  split; [exact all_reionization_parametrizations_NoDup|].
  split; [reflexivity|].
  split; [reflexivity|].
  split; [intros []; reflexivity|].
  split.
  { intros c p. split.
    - unfold reionization_parametrization_of_code. intro H.
      apply find_some in H. destruct H as [_ H].
      apply Z.eqb_eq in H. symmetry. exact H.
    - intros ->. destruct p; reflexivity. }
  split; [intros []; reflexivity|].
  split.
  { intros p c. split.
    - destruct p, c; simpl; intro H; solve [reflexivity | discriminate H].
    - intros ->. destruct c; reflexivity. }
  intros p. split.
  - destruct p; simpl; intro H; solve [reflexivity | discriminate H].
  - intros ->. reflexivity.
Qed.

(** ** The smooth steps *)

(** Two functions that agree everywhere have the same derivative. *)
Lemma derivable_pt_lim_ext (f g : R -> R) (x l : R) :
  (forall y, f y = g y) -> derivable_pt_lim f x l -> derivable_pt_lim g x l.
Proof.
  intros Hfg Hf eps Heps. destruct (Hf eps Heps) as [delta Hdelta].
  exists delta. intros h Hh Hlt. rewrite <- !Hfg. exact (Hdelta h Hh Hlt).
Qed.

Lemma f1_derivable (x : R) : derivable_pt_lim f1 x (f1_deriv x).
Proof.
  apply derivable_pt_lim_ext with
    (f := (((fct_cte (-0.75) * id) * ((id * id) / fct_cte 3 - fct_cte 1))
           + fct_cte 0.5)%F).
  { intro y. reflexivity. }
  replace (f1_deriv x) with
    (((0 * id x + fct_cte (-0.75) x * 1) * ((id * id) / fct_cte 3 - fct_cte 1)%F x
      + (fct_cte (-0.75) * id)%F x
        * (((1 * id x + id x * 1) * fct_cte 3 x - 0 * (id * id)%F x) / Rsqr (fct_cte 3 x) - 0))
     + 0)%R.
  2:{ unfold f1_deriv, fct_cte, id, mult_fct, div_fct, minus_fct, Rsqr. lra. }
  apply derivable_pt_lim_plus; [|apply derivable_pt_lim_const].
  apply derivable_pt_lim_mult.
  - apply derivable_pt_lim_mult; [apply derivable_pt_lim_const|apply derivable_pt_lim_id].
  - apply derivable_pt_lim_minus; [|apply derivable_pt_lim_const].
    apply derivable_pt_lim_div.
    + apply derivable_pt_lim_mult; apply derivable_pt_lim_id.
    + apply derivable_pt_lim_const.
    + unfold fct_cte. lra.
Qed.

Lemma f2_derivable (x : R) : derivable_pt_lim f2 x (f2_deriv x).
Proof.
  apply derivable_pt_lim_ext with
    (f := (((id * id) * (fct_cte 0.5 - id / fct_cte 3)) * fct_cte 6)%F).
  { intro y. reflexivity. }
  replace (f2_deriv x) with
    ((((1 * id x + id x * 1) * (fct_cte 0.5 - id / fct_cte 3)%F x
       + (id * id)%F x
         * (0 - (1 * fct_cte 3 x - 0 * id x) / Rsqr (fct_cte 3 x)))
      * fct_cte 6 x
      + ((id * id) * (fct_cte 0.5 - id / fct_cte 3))%F x * 0))%R.
  2:{ unfold f2_deriv, fct_cte, id, mult_fct, div_fct, minus_fct, Rsqr. lra. }
  apply derivable_pt_lim_mult; [|apply derivable_pt_lim_const].
  apply derivable_pt_lim_mult.
  - apply derivable_pt_lim_mult; apply derivable_pt_lim_id.
  - apply derivable_pt_lim_minus; [apply derivable_pt_lim_const|].
    apply derivable_pt_lim_div.
    + apply derivable_pt_lim_id.
    + apply derivable_pt_lim_const.
    + unfold fct_cte. lra.
Qed.

Lemma f1_deriv_continuous : continuity f1_deriv.
Proof. unfold f1_deriv. reg. Qed.

Lemma f2_deriv_continuous : continuity f2_deriv.
Proof. unfold f2_deriv. reg. Qed.

Lemma f1_nondecreasing (x y : R) :
  (-1 <= x)%R -> (x <= y)%R -> (y <= 1)%R -> (f1 x <= f1 y)%R.
Proof.
  intros Hx Hxy Hy. unfold f1.
  assert (E : ((-0.75 * y * (y * y / 3 - 1) + 0.5) - (-0.75 * x * (x * x / 3 - 1) + 0.5)
               = 0.25 * (y - x) * (3 - (x * x + x * y + y * y)))%R) by lra.
  assert (0 <= (1 - x) * (1 + x))%R by (apply Rmult_le_pos; lra).
  assert (0 <= (1 - y) * (1 + y))%R by (apply Rmult_le_pos; lra).
  assert (0 <= (1 - x) * (1 + y))%R by (apply Rmult_le_pos; lra).
  assert (0 <= (1 + x) * (1 - y))%R by (apply Rmult_le_pos; lra).
  assert (0 <= 0.25 * (y - x) * (3 - (x * x + x * y + y * y)))%R.
  { apply Rmult_le_pos; [lra|]. nra. }
  lra.
Qed.

Lemma f2_nondecreasing (x y : R) :
  (0 <= x)%R -> (x <= y)%R -> (y <= 1)%R -> (f2 x <= f2 y)%R.
Proof.
  intros Hx Hxy Hy. unfold f2.
  assert (E : (y * y * (0.5 - y / 3) * 6 - x * x * (0.5 - x / 3) * 6
               = (y - x) * (3 * (x + y) - 2 * (x * x + x * y + y * y)))%R) by lra.
  assert (0 <= x * (1 - x))%R by (apply Rmult_le_pos; lra).
  assert (0 <= y * (1 - y))%R by (apply Rmult_le_pos; lra).
  assert (0 <= x * (1 - y))%R by (apply Rmult_le_pos; lra).
  assert (0 <= (1 - x) * y)%R by (apply Rmult_le_pos; lra).
  assert (0 <= (y - x) * (3 * (x + y) - 2 * (x * x + x * y + y * y)))%R.
  { apply Rmult_le_pos; [lra|]. nra. }
  lra.
Qed.

(** On binary64 floats the two macros give exactly 0 and 1 at the ends of
    their windows, and one half in the middle. *)
Example f1_float_ends :
  f1_float (-1) = 0%float /\ f1_float 1 = 1%float /\ f1_float 0 = 0.5%float.
Proof. repeat split; reflexivity. Qed.

Example f2_float_ends :
  f2_float 0 = 0%float /\ f2_float 1 = 1%float /\ f2_float 0.5 = 0.5%float.
Proof. repeat split; reflexivity. Qed.

(** C3: [f1] and [f2] are smooth steps.  [f1] is 0 at -1 and 1 at 1, its
    derivative exists everywhere, is continuous, vanishes at -1 and at 1,
    and [f1] is non-decreasing on [-1,1]; [f2] is 0 at 0 and 1 at 1, its
    derivative exists everywhere, is continuous, vanishes at 0 and at 1,
    and [f2] is non-decreasing on [0,1]. *)
Theorem smooth_steps_f1_f2 :
  (f1 (-1) = 0 /\ f1 1 = 1)%R /\
  (derivable_pt_lim f1 (-1) 0 /\ derivable_pt_lim f1 1 0)%R /\
  (forall x, derivable_pt_lim f1 x (f1_deriv x)) /\ continuity f1_deriv /\
  (forall x y, -1 <= x -> x <= y -> y <= 1 -> f1 x <= f1 y)%R /\
  (f2 0 = 0 /\ f2 1 = 1)%R /\
  (derivable_pt_lim f2 0 0 /\ derivable_pt_lim f2 1 0)%R /\
  (forall x, derivable_pt_lim f2 x (f2_deriv x)) /\ continuity f2_deriv /\
  (forall x y, 0 <= x -> x <= y -> y <= 1 -> f2 x <= f2 y)%R.
Proof.
  assert (D1 : forall x l, f1_deriv x = l -> derivable_pt_lim f1 x l).
  { intros x l <-. apply f1_derivable. }
  assert (D2 : forall x l, f2_deriv x = l -> derivable_pt_lim f2 x l).
  { intros x l <-. apply f2_derivable. }
  split; [split; unfold f1; lra|].
  split; [split; apply D1; unfold f1_deriv; lra|].
  split; [exact f1_derivable|].
  split; [exact f1_deriv_continuous|].
  split; [exact f1_nondecreasing|].
  split; [split; unfold f2; lra|].
  split; [split; apply D2; unfold f2_deriv; lra|].
  split; [exact f2_derivable|].
  split; [exact f2_deriv_continuous|].
  exact f2_nondecreasing.
Qed.

Lemma smooth_steps_f1_f2_inside :
  (f1 (-0.5) <= f1 0.5 /\ f2 0.25 <= f2 0.75)%R.
Proof.
  destruct smooth_steps_f1_f2 as [_ [_ [_ [_ [M1 [_ [_ [_ [_ M2]]]]]]]]].
  split; [apply M1; lra|apply M2; lra].
Defined.

(** ** The annihilation window *)

Section AnnihilationWindow.

Local Open Scope R_scope.

Variable pthp : thermo_heating_parameters.

Local Notation "'zmin'" := (annihilation_zmin pthp).
Local Notation "'zmax'" := (annihilation_zmax pthp).

Hypothesis Hvalid : valid_annihilation_window pthp.

Lemma zmin_above_minus_one : -1 < zmin.
Proof. destruct Hvalid as [H _]. exact H. Qed.

Lemma zmin_below_zmax : zmin < zmax.
Proof. destruct Hvalid as [_ [H _]]. exact H. Qed.

Lemma zmax_above_minus_one : -1 < zmax.
Proof. pose proof zmin_above_minus_one. pose proof zmin_below_zmax. lra. Qed.

(** The three branches of the profile. *)
Lemma annihilation_at_z_below (z : R) :
  z <= zmin -> annihilation_at_z pthp z = annihilation_parabola pthp zmin.
Proof.
  intro Hz. pose proof zmin_below_zmax as Hlt. unfold annihilation_at_z.
  destruct (Rlt_dec zmax z) as [H|_]; [lra|].
  destruct (Rlt_dec zmin z) as [H|_]; [lra|reflexivity].
Qed.

Lemma annihilation_at_z_inside (z : R) :
  zmin <= z <= zmax -> annihilation_at_z pthp z = annihilation_parabola pthp z.
Proof.
  intros [Hlo Hhi]. unfold annihilation_at_z.
  destruct (Rlt_dec zmax z) as [H|_]; [lra|].
  destruct (Rlt_dec zmin z) as [_|H]; [reflexivity|].
  replace z with zmin by lra. reflexivity.
Qed.

Lemma annihilation_at_z_above (z : R) :
  zmax <= z -> annihilation_at_z pthp z = annihilation_parabola pthp zmax.
Proof.
  intro Hz. unfold annihilation_at_z.
  destruct (Rlt_dec zmax z) as [_|H]; [reflexivity|].
  replace z with zmax by lra.
  pose proof zmin_below_zmax.
  destruct (Rlt_dec zmin zmax) as [_|H']; [reflexivity|lra].
Qed.

(** The abscissa log((1+z)/(1+zmax)) has derivative 1/(1+z). *)
Lemma loglog_abscissa_derivable (z : R) :
  -1 < z -> derivable_pt_lim (loglog_abscissa pthp) z (/ (1 + z)).
Proof.
  intro Hz. pose proof zmax_above_minus_one as Hmax.
  apply derivable_pt_lim_ext with
    (f := comp ln ((fct_cte 1 + id) / fct_cte (1 + zmax))%F).
  { intro y. reflexivity. }
  replace (/ (1 + z)) with
    (/ ((1 + z) / (1 + zmax))
     * (((0 + 1) * fct_cte (1 + zmax) z - 0 * (fct_cte 1 + id)%F z)
        / Rsqr (fct_cte (1 + zmax) z))).
  2:{ unfold fct_cte, plus_fct, id, Rsqr. field. lra. }
  apply derivable_pt_lim_comp.
  - apply derivable_pt_lim_div.
    + apply derivable_pt_lim_plus; [apply derivable_pt_lim_const|apply derivable_pt_lim_id].
    + apply derivable_pt_lim_const.
    + unfold fct_cte. lra.
  - apply derivable_pt_lim_ln.
    unfold div_fct, plus_fct, fct_cte, id. apply Rdiv_lt_0_compat; lra.
Qed.

(** The parabola branch is derivable wherever 1+z is positive. *)
Lemma annihilation_parabola_derivable (z : R) :
  -1 < z ->
  derivable_pt_lim (annihilation_parabola pthp) z (annihilation_parabola_deriv pthp z).
Proof.
  intro Hz.
  set (u := loglog_abscissa pthp).
  set (c := u (annihilation_z pthp) * u (annihilation_z pthp)).
  set (v := annihilation_variation pthp).
  apply derivable_pt_lim_ext with
    (f := (fct_cte (annihilation pthp)
           * comp exp (fct_cte v * (u * u - fct_cte c)))%F).
  { intro y. reflexivity. }
  replace (annihilation_parabola_deriv pthp z) with
    (0 * comp exp (fct_cte v * (u * u - fct_cte c))%F z
     + fct_cte (annihilation pthp) z
       * (exp ((fct_cte v * (u * u - fct_cte c))%F z)
          * (0 * (u * u - fct_cte c)%F z
             + fct_cte v z * ((/ (1 + z) * u z + u z * / (1 + z)) - 0)))).
  2:{ unfold annihilation_parabola_deriv, annihilation_parabola, comp, fct_cte,
        mult_fct, minus_fct. fold u. fold c. fold v. field. lra. }
  apply derivable_pt_lim_mult; [apply derivable_pt_lim_const|].
  apply derivable_pt_lim_comp; [|apply derivable_pt_lim_exp].
  apply derivable_pt_lim_mult; [apply derivable_pt_lim_const|].
  apply derivable_pt_lim_minus; [|apply derivable_pt_lim_const].
  apply derivable_pt_lim_mult; apply loglog_abscissa_derivable; exact Hz.
Qed.

Lemma annihilation_parabola_continuous (z : R) :
  -1 < z -> continuity_pt (annihilation_parabola pthp) z.
Proof.
  intro Hz. apply derivable_continuous_pt.
  exists (annihilation_parabola_deriv pthp z).
  apply annihilation_parabola_derivable. exact Hz.
Qed.

(** At zmax the abscissa is 0, so the parabola is flat there. *)
Lemma annihilation_parabola_deriv_zmax : annihilation_parabola_deriv pthp zmax = 0.
Proof.
  pose proof zmax_above_minus_one as Hmax.
  unfold annihilation_parabola_deriv, loglog_abscissa.
  replace ((1 + zmax) / (1 + zmax)) with 1 by (field; lra).
  rewrite ln_1. field. lra.
Qed.

(** At zmin the abscissa is negative. *)
Lemma loglog_abscissa_zmin_negative : loglog_abscissa pthp zmin < 0.
Proof.
  pose proof zmin_above_minus_one as Hmin. pose proof zmin_below_zmax as Hlt.
  unfold loglog_abscissa.
  rewrite <- ln_1. apply ln_increasing.
  - apply Rdiv_lt_0_compat; lra.
  - apply Rmult_lt_reg_r with (1 + zmax); [lra|].
    unfold Rdiv. rewrite Rmult_assoc, Rinv_l by lra. lra.
Qed.

(** So the parabola is not flat at zmin, unless the rate is zero
    altogether. *)
Lemma annihilation_parabola_deriv_zmin :
  annihilation pthp <> 0 -> annihilation_parabola_deriv pthp zmin <> 0.
Proof.
  intro HA.
  pose proof zmin_above_minus_one as Hmin.
  pose proof loglog_abscissa_zmin_negative as Hu.
  destruct Hvalid as [_ [_ Hv]].
  unfold annihilation_parabola_deriv, annihilation_parabola.
  apply Rmult_integral_contrapositive_currified.
  - apply Rmult_integral_contrapositive_currified; [exact HA|].
    pose proof (exp_pos (annihilation_variation pthp *
      (loglog_abscissa pthp zmin * loglog_abscissa pthp zmin
       - loglog_abscissa pthp (annihilation_z pthp)
         * loglog_abscissa pthp (annihilation_z pthp)))). lra.
  - apply Rmult_integral_contrapositive_currified; [lra|].
    unfold Rdiv. apply Rmult_integral_contrapositive_currified.
    + lra.
    + apply Rinv_neq_0_compat. lra.
Qed.

End AnnihilationWindow.

Section AnnihilationWindowEdges.

Local Open Scope R_scope.

Variable pthp : thermo_heating_parameters.

Local Notation "'zmin'" := (annihilation_zmin pthp).
Local Notation "'zmax'" := (annihilation_zmax pthp).
Local Notation "'F'" := (annihilation_at_z pthp).
Local Notation "'P'" := (annihilation_parabola pthp).

Hypothesis Hvalid : valid_annihilation_window pthp.

(** The profile is continuous at both edges of the window: the parabola
    meets the two constants. *)
Lemma annihilation_continuous_zmin : continuity_pt F zmin.
Proof.
  pose proof (zmin_above_minus_one pthp Hvalid) as Hmin.
  pose proof (zmin_below_zmax pthp Hvalid) as Hlt.
  pose proof (annihilation_parabola_continuous pthp Hvalid zmin Hmin) as HP.
  unfold continuity_pt, continue_in, limit1_in, limit_in, D_x, no_cond in *.
  simpl in *. unfold R_dist in *.
  intros eps Heps. destruct (HP eps Heps) as [alp [Halp Hclose]].
  exists (Rmin alp (zmax - zmin)). split.
  { apply Rmin_pos; lra. }
  intros x [[_ Hne] Hx].
  rewrite (annihilation_at_z_inside pthp zmin) by lra.
  destruct (Rle_dec x zmin) as [Hle|Hgt].
  - rewrite (annihilation_at_z_below pthp Hvalid x Hle).
    rewrite Rminus_diag, Rabs_R0. exact Heps.
  - assert (Hx1 : Rabs (x - zmin) < alp) by (eapply Rlt_le_trans; [exact Hx|apply Rmin_l]).
    assert (Hx2 : Rabs (x - zmin) < zmax - zmin)
      by (eapply Rlt_le_trans; [exact Hx|apply Rmin_r]).
    rewrite Rabs_right in Hx2 by lra.
    rewrite (annihilation_at_z_inside pthp x) by lra.
    apply Hclose. split; [split; [exact I|exact Hne]|exact Hx1].
Qed.

Lemma annihilation_continuous_zmax : continuity_pt F zmax.
Proof.
  pose proof (zmax_above_minus_one pthp Hvalid) as Hmax.
  pose proof (zmin_below_zmax pthp Hvalid) as Hlt.
  pose proof (annihilation_parabola_continuous pthp Hvalid zmax Hmax) as HP.
  unfold continuity_pt, continue_in, limit1_in, limit_in, D_x, no_cond in *.
  simpl in *. unfold R_dist in *.
  intros eps Heps. destruct (HP eps Heps) as [alp [Halp Hclose]].
  exists (Rmin alp (zmax - zmin)). split.
  { apply Rmin_pos; lra. }
  intros x [[_ Hne] Hx].
  rewrite (annihilation_at_z_inside pthp zmax) by lra.
  destruct (Rle_dec zmax x) as [Hle|Hgt].
  - rewrite (annihilation_at_z_above pthp Hvalid x Hle).
    rewrite Rminus_diag, Rabs_R0. exact Heps.
  - assert (Hx1 : Rabs (x - zmax) < alp) by (eapply Rlt_le_trans; [exact Hx|apply Rmin_l]).
    assert (Hx2 : Rabs (x - zmax) < zmax - zmin)
      by (eapply Rlt_le_trans; [exact Hx|apply Rmin_r]).
    rewrite Rabs_left in Hx2 by lra.
    rewrite (annihilation_at_z_inside pthp x) by lra.
    apply Hclose. split; [split; [exact I|exact Hne]|exact Hx1].
Qed.

(** At zmax the profile is derivable, with derivative 0: the parabola
    has its maximum there and joins the upper constant smoothly. *)
Lemma annihilation_derivable_zmax : derivable_pt_lim F zmax 0.
Proof.
  pose proof (zmax_above_minus_one pthp Hvalid) as Hmax.
  pose proof (zmin_below_zmax pthp Hvalid) as Hlt.
  pose proof (annihilation_parabola_derivable pthp Hvalid zmax Hmax) as HP.
  rewrite (annihilation_parabola_deriv_zmax pthp Hvalid) in HP.
  intros eps Heps. destruct (HP eps Heps) as [d1 Hd1].
  assert (Hpos : 0 < Rmin d1 (zmax - zmin)).
  { apply Rmin_pos; [apply cond_pos|lra]. }
  exists (mkposreal _ Hpos). simpl. intros h Hh Hsmall.
  rewrite (annihilation_at_z_inside pthp zmax) by lra.
  destruct (Rle_dec 0 h) as [Hge|Hneg].
  - rewrite (annihilation_at_z_above pthp Hvalid (zmax + h)) by lra.
    replace ((P zmax - P zmax) / h - 0) with 0 by (field; exact Hh).
    rewrite Rabs_R0. exact Heps.
  - assert (Hh1 : Rabs h < d1) by (eapply Rlt_le_trans; [exact Hsmall|apply Rmin_l]).
    assert (Hh2 : Rabs h < zmax - zmin)
      by (eapply Rlt_le_trans; [exact Hsmall|apply Rmin_r]).
    rewrite Rabs_left in Hh2 by lra.
    rewrite (annihilation_at_z_inside pthp (zmax + h)) by lra.
    exact (Hd1 h Hh Hh1).
Qed.

(** At zmin, coming from below, the profile is constant. *)
Lemma annihilation_left_derivative_zmin : left_derivative F zmin 0.
Proof.
  intros eps Heps. exists 1. split; [lra|]. intros h [_ Hh].
  rewrite (annihilation_at_z_below pthp Hvalid (zmin + h)) by lra.
  rewrite (annihilation_at_z_below pthp Hvalid zmin) by lra.
  replace ((P zmin - P zmin) / h - 0) with 0 by (field; lra).
  rewrite Rabs_R0. exact Heps.
Qed.

(** At zmin, coming from above, the profile has the slope of the
    parabola. *)
Lemma annihilation_right_derivative_zmin :
  right_derivative F zmin (annihilation_parabola_deriv pthp zmin).
Proof.
  pose proof (zmin_above_minus_one pthp Hvalid) as Hmin.
  pose proof (zmin_below_zmax pthp Hvalid) as Hlt.
  pose proof (annihilation_parabola_derivable pthp Hvalid zmin Hmin) as HP.
  intros eps Heps. destruct (HP eps Heps) as [d1 Hd1].
  exists (Rmin d1 (zmax - zmin)). split.
  { apply Rmin_pos; [apply cond_pos|lra]. }
  intros h [Hh Hsmall].
  assert (Hh1 : h < d1) by (eapply Rlt_le_trans; [exact Hsmall|apply Rmin_l]).
  assert (Hh2 : h < zmax - zmin) by (eapply Rlt_le_trans; [exact Hsmall|apply Rmin_r]).
  rewrite (annihilation_at_z_inside pthp (zmin + h)) by lra.
  rewrite (annihilation_at_z_inside pthp zmin) by lra.
  apply Hd1; [lra|]. rewrite Rabs_right by lra. exact Hh1.
Qed.

End AnnihilationWindowEdges.

(** A derivative is a derivative from each side. *)
Lemma derivable_left_derivative (f : R -> R) (x l : R) :
  derivable_pt_lim f x l -> left_derivative f x l.
Proof.
  intros Hf eps Heps. destruct (Hf eps Heps) as [delta Hdelta].
  exists delta. split; [apply cond_pos|]. intros h [Hlo Hhi].
  apply Hdelta; [lra|]. rewrite Rabs_left by lra. lra.
Qed.

Lemma derivable_right_derivative (f : R -> R) (x l : R) :
  derivable_pt_lim f x l -> right_derivative f x l.
Proof.
  intros Hf eps Heps. destruct (Hf eps Heps) as [delta Hdelta].
  exists delta. split; [apply cond_pos|]. intros h [Hlo Hhi].
  apply Hdelta; [lra|]. rewrite Rabs_right by lra. lra.
Qed.

(** One-sided derivatives are unique. *)
Lemma right_derivative_unique (f : R -> R) (x l1 l2 : R) :
  right_derivative f x l1 -> right_derivative f x l2 -> l1 = l2.
Proof.
  intros H1 H2.
  destruct (Req_dec l1 l2) as [E|N]; [exact E|exfalso].
  assert (Heps : (0 < Rabs (l1 - l2) / 2)%R).
  { apply Rdiv_lt_0_compat; [|lra]. apply Rabs_pos_lt. lra. }
  destruct (H1 _ Heps) as [d1 [Hd1 K1]].
  destruct (H2 _ Heps) as [d2 [Hd2 K2]].
  assert (Hh : (0 < Rmin d1 d2 / 2)%R).
  { apply Rdiv_lt_0_compat; [apply Rmin_pos; assumption|lra]. }
  pose proof (Rmin_l d1 d2). pose proof (Rmin_r d1 d2).
  specialize (K1 (Rmin d1 d2 / 2)%R). specialize (K2 (Rmin d1 d2 / 2)%R).
  assert (A1 := K1 ltac:(lra)). assert (A2 := K2 ltac:(lra)).
  set (q := ((f (x + Rmin d1 d2 / 2) - f x) / (Rmin d1 d2 / 2))%R) in *.
  assert (T : (Rabs (l1 - l2) <= Rabs (q - l2) + Rabs (q - l1))%R).
  { replace (l1 - l2)%R with ((q - l2) + - (q - l1))%R by lra.
    eapply Rle_trans; [apply Rabs_triang|]. rewrite Rabs_Ropp. lra. }
  lra.
Qed.

Lemma left_derivative_unique (f : R -> R) (x l1 l2 : R) :
  left_derivative f x l1 -> left_derivative f x l2 -> l1 = l2.
Proof.
  intros H1 H2.
  destruct (Req_dec l1 l2) as [E|N]; [exact E|exfalso].
  assert (Heps : (0 < Rabs (l1 - l2) / 2)%R).
  { apply Rdiv_lt_0_compat; [|lra]. apply Rabs_pos_lt. lra. }
  destruct (H1 _ Heps) as [d1 [Hd1 K1]].
  destruct (H2 _ Heps) as [d2 [Hd2 K2]].
  assert (Hh : (0 < Rmin d1 d2 / 2)%R).
  { apply Rdiv_lt_0_compat; [apply Rmin_pos; assumption|lra]. }
  pose proof (Rmin_l d1 d2). pose proof (Rmin_r d1 d2).
  specialize (K1 (- (Rmin d1 d2 / 2))%R). specialize (K2 (- (Rmin d1 d2 / 2))%R).
  assert (A1 := K1 ltac:(lra)). assert (A2 := K2 ltac:(lra)).
  set (q := ((f (x + - (Rmin d1 d2 / 2)) - f x) / (- (Rmin d1 d2 / 2)))%R) in *.
  assert (T : (Rabs (l1 - l2) <= Rabs (q - l2) + Rabs (q - l1))%R).
  { replace (l1 - l2)%R with ((q - l2) + - (q - l1))%R by lra.
    eapply Rle_trans; [apply Rabs_triang|]. rewrite Rabs_Ropp. lra. }
  lra.
Qed.

(** The profile has no derivative at zmin, unless the rate is zero: from
    below its slope is 0, from above it is the slope of the parabola. *)
Lemma annihilation_not_derivable_zmin (pthp : thermo_heating_parameters) :
  valid_annihilation_window pthp ->
  annihilation pthp <> 0%R ->
  ~ (exists l : R,
       derivable_pt_lim (annihilation_at_z pthp) (annihilation_zmin pthp) l).
Proof.
  intros Hvalid HA [l Hl].
  pose proof (left_derivative_unique _ _ _ _
                (derivable_left_derivative _ _ _ Hl)
                (annihilation_left_derivative_zmin pthp Hvalid)) as E0.
  pose proof (right_derivative_unique _ _ _ _
                (derivable_right_derivative _ _ _ Hl)
                (annihilation_right_derivative_zmin pthp Hvalid)) as E1.
  apply (annihilation_parabola_deriv_zmin pthp Hvalid HA).
  rewrite <- E1. exact E0.
Qed.

Lemma unit_window_valid : valid_annihilation_window unit_window.
Proof. unfold valid_annihilation_window, unit_window. simpl. lra. Qed.

(** C4, as stated, fails at the lower edge: for zmin = 0, zmax = 1 and
    curvature -1 (a valid combination) the annihilation profile has no
    derivative at z = zmin. *)
Lemma annihilation_window_not_smooth_at_zmin :
  valid_annihilation_window unit_window /\
  ~ (exists l : R,
       derivable_pt_lim (annihilation_at_z unit_window)
                        (annihilation_zmin unit_window) l).
Proof.
  split; [exact unit_window_valid|].
  apply annihilation_not_derivable_zmin; [exact unit_window_valid|].
  unfold unit_window. simpl. lra.
Qed.

(** C4, amended: for every parameter combination with zmin < zmax and a
    negative curvature, the annihilation profile is continuous at zmin and
    at zmax, and at zmax it is derivable with derivative 0, the parabola
    having its maximum there.  At zmin only the value matches: the slope
    is 0 from below and the slope of the parabola from above,
    F(zmin) * variation * 2 log((1+zmin)/(1+zmax)) / (1+zmin), which is not
    0 unless the annihilation parameter is 0. *)
Theorem annihilation_window_edges (pthp : thermo_heating_parameters) :
  valid_annihilation_window pthp ->
  continuity_pt (annihilation_at_z pthp) (annihilation_zmin pthp) /\
  continuity_pt (annihilation_at_z pthp) (annihilation_zmax pthp) /\
  derivable_pt_lim (annihilation_at_z pthp) (annihilation_zmax pthp) 0%R /\
  left_derivative (annihilation_at_z pthp) (annihilation_zmin pthp) 0%R /\
  right_derivative (annihilation_at_z pthp) (annihilation_zmin pthp)
    (annihilation_parabola_deriv pthp (annihilation_zmin pthp)) /\
  (annihilation pthp <> 0%R ->
   annihilation_parabola_deriv pthp (annihilation_zmin pthp) <> 0%R).
Proof.
  intro Hvalid.
  split; [exact (annihilation_continuous_zmin pthp Hvalid)|].
  split; [exact (annihilation_continuous_zmax pthp Hvalid)|].
  split; [exact (annihilation_derivable_zmax pthp Hvalid)|].
  split; [exact (annihilation_left_derivative_zmin pthp Hvalid)|].
  split; [exact (annihilation_right_derivative_zmin pthp Hvalid)|].
  exact (annihilation_parabola_deriv_zmin pthp Hvalid).
Qed.

Lemma annihilation_window_edges_unit :
  valid_annihilation_window unit_window /\
  derivable_pt_lim (annihilation_at_z unit_window) 1%R 0%R /\
  left_derivative (annihilation_at_z unit_window) 0%R 0%R.
Proof.
  split; [exact unit_window_valid|].
  pose proof (annihilation_window_edges unit_window unit_window_valid) as H.
  split; [apply H|apply H].
Defined.

(** ** The approximation intervals *)

Section IncreasingLimits.

Local Open Scope Q_scope.

Lemma strictly_increasing_tail (a : Q) (t : list Q) :
  strictly_increasing (a :: t) -> strictly_increasing t.
Proof. destruct t as [|b r]; simpl; tauto. Qed.

(** The first limit is below every later one. *)
Lemma strictly_increasing_head (t : list Q) :
  forall a x, strictly_increasing (a :: t) -> In x t -> a < x.
Proof.
  induction t as [|b r IH]; intros a x Hsi Hin; [contradiction|].
  destruct Hsi as [Hab Hrest]. destruct Hin as [<-|Hin]; [exact Hab|].
  apply Qlt_trans with b; [exact Hab|]. exact (IH b x Hrest Hin).
Qed.

Lemma strictly_increasing_nth (l : list Q) :
  forall i j, strictly_increasing l -> (i < j)%nat -> (j < List.length l)%nat ->
              nth i l 0 < nth j l 0.
Proof.
  induction l as [|a t IH]; intros i j Hsi Hij Hj; [simpl in Hj; lia|].
  destruct j as [|j]; [lia|]. simpl in Hj.
  destruct i as [|i]; simpl.
  - apply strictly_increasing_head with t; [exact Hsi|].
    apply nth_In. lia.
  - apply IH; [exact (strictly_increasing_tail a t Hsi)|lia|lia].
Qed.

Lemma strictly_increasing_nth_le (l : list Q) (i j : nat) :
  strictly_increasing l -> (i <= j)%nat -> (j < List.length l)%nat ->
  nth i l 0 <= nth j l 0.
Proof.
  intros Hsi Hij Hj. destruct (Nat.eq_dec i j) as [->|Hne].
  - apply Qle_refl.
  - apply Qlt_le_weak. apply strictly_increasing_nth; [exact Hsi|lia|exact Hj].
Qed.

(** Negating a strictly decreasing list of redshifts gives a strictly
    increasing list in the integration variable. *)
Lemma strictly_decreasing_opp (zs : list Q) :
  forall a b z0, z0 == - a ->
    strictly_decreasing (z0 :: zs ++ [- b]) ->
    strictly_increasing (a :: map Qopp zs ++ [b]).
Proof.
  induction zs as [|z zs IH]; intros a b z0 Hz0 Hsd; simpl in *.
  - destruct Hsd as [H _]. split; [|exact I]. rewrite Hz0 in H. lra.
  - destruct Hsd as [H Hrest]. split.
    + rewrite Hz0 in H. lra.
    + apply (IH (- z) b z); [|exact Hrest]. symmetry. apply Qopp_involutive.
Qed.

(** What [regime_output] decides. *)
Lemma regime_output_true (l : list Q) (k : nat) (mz : Q) :
  regime_output l k mz = true <->
  (S k < List.length l)%nat /\ nth k l 0 <= mz /\
  (if Nat.eqb (S (S k)) (List.length l) then mz <= nth (S k) l 0
   else mz < nth (S k) l 0).
Proof.
  unfold regime_output. rewrite !andb_true_iff, Nat.ltb_lt, Qle_bool_iff.
  destruct (Nat.eqb (S (S k)) (List.length l)).
  - rewrite Qle_bool_iff. tauto.
  - rewrite negb_true_iff. split.
    + intros [[H1 H2] H3]. repeat split; try assumption.
      apply Qnot_le_lt. intro Hle. apply Qle_bool_iff in Hle. congruence.
    + intros [H1 [H2 H3]]. repeat split; try assumption.
      destruct (Qle_bool (nth (S k) l 0) mz) eqn:E; [|reflexivity].
      apply Qle_bool_iff in E. lra.
Qed.

Lemma regime_output_shift (a : Q) (t : list Q) (k : nat) (mz : Q) :
  regime_output (a :: t) (S k) mz = regime_output t k mz.
Proof. reflexivity. Qed.

(** Every point of the domain is given by some regime. *)
Lemma regime_output_exists (l : list Q) :
  forall mz, (2 <= List.length l)%nat -> strictly_increasing l ->
    hd 0 l <= mz -> mz <= last l 0 ->
    exists k, regime_output l k mz = true.
Proof.
  induction l as [|a t IH]; intros mz Hlen Hsi Hlo Hhi; [simpl in Hlen; lia|].
  destruct t as [|b r]; [simpl in Hlen; lia|].
  destruct r as [|c r].
  - exists 0%nat. apply regime_output_true. simpl in *. repeat split; try lia; assumption.
  - destruct (Qlt_le_dec mz b) as [Hlt|Hge].
    + exists 0%nat. apply regime_output_true. simpl in *. repeat split; try lia; assumption.
    + destruct (IH mz) as [k Hk].
      * simpl. lia.
      * exact (strictly_increasing_tail a _ Hsi).
      * exact Hge.
      * exact Hhi.
      * exists (S k). rewrite regime_output_shift. exact Hk.
Qed.

(** And by one regime only. *)
Lemma regime_output_unique (l : list Q) (j k : nat) (mz : Q) :
  strictly_increasing l ->
  regime_output l j mz = true -> regime_output l k mz = true -> j = k.
Proof.
  assert (Hord : forall i m : nat, strictly_increasing l ->
            regime_output l i mz = true -> regime_output l m mz = true ->
            ~ (i < m)%nat).
  { intros i m Hsi Hi Hm Him.
    apply regime_output_true in Hi. destruct Hi as [Hi1 [_ Hi3]].
    apply regime_output_true in Hm. destruct Hm as [Hm1 [Hm2 _]].
    assert (E : Nat.eqb (S (S i)) (List.length l) = false) by (apply Nat.eqb_neq; lia).
    rewrite E in Hi3.
    pose proof (strictly_increasing_nth_le l (S i) m Hsi ltac:(lia) ltac:(lia)) as Hle.
    lra. }
  intros Hsi Hj Hk.
  pose proof (Hord j k Hsi Hj Hk). pose proof (Hord k j Hsi Hk Hj). lia.
Qed.

(** The intervals are the pairs of consecutive limits. *)
Lemma interval_pairs_nth (l : list Q) :
  forall k, (S k < List.length l)%nat ->
    nth k (interval_pairs l) (0, 0) = (nth k l 0, nth (S k) l 0).
Proof.
  induction l as [|a t IH]; intros k Hk; [simpl in Hk; lia|].
  destruct t as [|b r]; [simpl in Hk; lia|].
  destruct k as [|k]; [reflexivity|].
  change (nth k (interval_pairs (b :: r)) (0, 0) = (nth k (b :: r) 0, nth (S k) (b :: r) 0)).
  apply IH. simpl in *. lia.
Qed.

Lemma interval_pairs_length (l : list Q) :
  List.length (interval_pairs l) = (List.length l - 1)%nat.
Proof.
  induction l as [|a t IH]; [reflexivity|].
  destruct t as [|b r]; [reflexivity|].
  change (S (List.length (interval_pairs (b :: r))) = (List.length (a :: b :: r) - 1)%nat).
  rewrite IH. simpl. lia.
Qed.

End IncreasingLimits.

Section DriverSamples.

Variable limits : list Q.

(** A sample no regime of the list selects adds nothing. *)
Lemma samples_not_selected (x : Q) (g : list Q) (ks : list nat) :
  (forall k, In k ks -> regime_output limits k x = false) ->
  flat_map (regime_samples limits (x :: g)) ks = flat_map (regime_samples limits g) ks.
Proof.
  induction ks as [|k ks IH]; intro Hnone; [reflexivity|]. simpl.
  rewrite (Hnone k (or_introl eq_refl)).
  rewrite IH; [reflexivity|]. intros k' Hk'. apply Hnone. right. exact Hk'.
Qed.

(** A sample that one regime of the list selects is output once. *)
Lemma samples_selected_once (x : Q) (g : list Q) (k0 : nat) (ks : list nat) :
  NoDup ks -> In k0 ks ->
  regime_output limits k0 x = true ->
  (forall k, In k ks -> regime_output limits k x = true -> k = k0) ->
  Permutation (flat_map (regime_samples limits (x :: g)) ks)
              (x :: flat_map (regime_samples limits g) ks).
Proof.
  induction ks as [|k ks IH]; intros Hnd Hin Hk0 Honly; [contradiction|].
  apply NoDup_cons_iff in Hnd. destruct Hnd as [Hnotin Hnd]. simpl.
  destruct (Nat.eq_dec k k0) as [->|Hne].
  - rewrite Hk0. rewrite samples_not_selected; [reflexivity|].
    intros k Hk. destruct (regime_output limits k x) eqn:E; [|reflexivity].
    exfalso. apply Hnotin. rewrite <- (Honly k (or_intror Hk) E). exact Hk.
  - destruct (regime_output limits k x) eqn:E.
    { exfalso. apply Hne. apply Honly; [left; reflexivity|exact E]. }
    destruct Hin as [Heq|Hin]; [contradiction|].
    rewrite (IH Hnd Hin Hk0).
    + apply Permutation_sym, Permutation_middle.
    + intros k' Hk'. apply Honly. right. exact Hk'.
Qed.

Lemma samples_of_empty_grid (ks : list nat) :
  flat_map (regime_samples limits []) ks = [].
Proof. induction ks as [|k ks IH]; [reflexivity|exact IH]. Qed.

(** The regimes together output every sample of a grid inside the domain
    exactly once. *)
Lemma driver_samples_permutation (mz_output : list Q) :
  (2 <= List.length limits)%nat -> strictly_increasing limits ->
  (forall mz, In mz mz_output -> (hd 0 limits <= mz /\ mz <= last limits 0)%Q) ->
  Permutation (driver_samples limits mz_output) mz_output.
Proof.
  intros Hlen Hsi. unfold driver_samples.
  induction mz_output as [|x g IH]; intro Hdom.
  - rewrite samples_of_empty_grid. constructor.
  - destruct (Hdom x (or_introl eq_refl)) as [Hlo Hhi].
    destruct (regime_output_exists limits x Hlen Hsi Hlo Hhi) as [k0 Hk0].
    rewrite (samples_selected_once x g k0).
    + constructor. apply IH. intros mz Hmz. apply Hdom. right. exact Hmz.
    + apply seq_NoDup.
    + apply in_seq. apply regime_output_true in Hk0. lia.
    + exact Hk0.
    + intros k _ Hk. exact (regime_output_unique limits k k0 x Hsi Hk Hk0).
Qed.

End DriverSamples.

(** A list given index by index is strictly decreasing when each entry is
    below the one before. *)
Lemma strictly_decreasing_seq (f : nat -> Q) (m : nat) :
  forall s, (forall i, (s <= i)%nat -> (S i < s + m)%nat -> (f (S i) < f i)%Q) ->
            strictly_decreasing (map f (seq s m)).
Proof.
  induction m as [|m IH]; intros s Hstep; [exact I|].
  destruct m as [|m]; [exact I|].
  change (f (S s) < f s /\ strictly_decreasing (map f (seq (S s) (S m))))%Q.
  split.
  - apply Hstep; lia.
  - apply IH. intros i Hi Hi'. apply Hstep; lia.
Qed.

Section ApproximationLimits.

Variable ptdw : thermo_diffeq_workspace.
Variables mz_ini mz_end : Q.

Hypothesis Hvalid : ordered_ending_limits ptdw mz_ini mz_end.

Local Notation "'limits'" := (interval_limits ptdw mz_ini mz_end).

Lemma interval_limits_length : List.length limits = S (ap_size ptdw).
Proof.
  destruct Hvalid as [H1 [H2 _]]. unfold interval_limits. simpl.
  rewrite length_app, length_map, length_firstn. simpl. lia.
Qed.

Lemma interval_limits_increasing : strictly_increasing limits.
Proof.
  destruct Hvalid as [_ [_ Hsd]]. unfold interval_limits.
  apply strictly_decreasing_opp with (z0 := (- mz_ini)%Q); [reflexivity|exact Hsd].
Qed.

Lemma interval_limits_ends : hd 0%Q limits = mz_ini /\ last limits 0%Q = mz_end.
Proof.
  split; [reflexivity|]. unfold interval_limits.
  rewrite app_comm_cons. apply last_last.
Qed.

Lemma regime_list_decreasing :
  strictly_decreasing (map (fun t => snd (fst t)) (regime_list ptdw limits)).
Proof.
  unfold regime_list. rewrite map_map.
  apply strictly_decreasing_seq. intros i _ Hi. cbn [fst snd].
  pose proof (strictly_increasing_nth limits i (S i) interval_limits_increasing
                ltac:(lia) ltac:(lia)) as Hlt.
  lra.
Qed.

End ApproximationLimits.

(** Two intervals meet at most in the limit they share. *)
Lemma intervals_meet_at_limit (l : list Q) (j k : nat) (mz : Q) :
  strictly_increasing l -> (j < k)%nat -> (S k < List.length l)%nat ->
  in_interval (nth j (interval_pairs l) (0, 0)%Q) mz ->
  in_interval (nth k (interval_pairs l) (0, 0)%Q) mz ->
  k = S j /\ (mz == nth k l 0)%Q.
Proof.
  intros Hsi Hjk Hk Hj Hk'.
  rewrite interval_pairs_nth in Hj by lia. rewrite interval_pairs_nth in Hk' by lia.
  destruct Hj as [_ Hj]. destruct Hk' as [Hk' _]. simpl in Hj, Hk'.
  destruct (Nat.eq_dec k (S j)) as [->|Hne].
  - split; [reflexivity|]. lra.
  - exfalso.
    pose proof (strictly_increasing_nth l (S j) k Hsi ltac:(lia) ltac:(lia)). lra.
Qed.

(** ** The samples of a sorted grid *)

Lemma filter_all (A : Type) (p : A -> bool) (g : list A) :
  (forall x, In x g -> p x = true) -> filter p g = g.
Proof.
  induction g as [|x g IH]; intro Hall; [reflexivity|]. simpl.
  rewrite (Hall x (or_introl eq_refl)). f_equal.
  apply IH. intros y Hy. apply Hall. right. exact Hy.
Qed.

Lemma filter_none (A : Type) (p : A -> bool) (g : list A) :
  (forall x, In x g -> p x = false) -> filter p g = [].
Proof.
  induction g as [|x g IH]; intro Hnone; [reflexivity|]. simpl.
  rewrite (Hnone x (or_introl eq_refl)).
  apply IH. intros y Hy. apply Hnone. right. exact Hy.
Qed.

(** A sorted grid splits at any limit: first the samples before the
    limit, then the samples from the limit on. *)
Lemma sorted_grid_split (b : Q) (g : list Q) :
  strictly_increasing g ->
  exists g1 g2, g = g1 ++ g2 /\
    (forall x, In x g1 -> (x < b)%Q) /\
    (forall x, In x g2 -> (b <= x)%Q) /\
    strictly_increasing g2.
Proof.
  induction g as [|x g IH]; intro Hsi.
  - exists [], []. repeat split; simpl; contradiction.
  - destruct (Qlt_le_dec x b) as [Hlt|Hge].
    + destruct (IH (strictly_increasing_tail x g Hsi)) as [g1 [g2 [E [H1 [H2 H3]]]]].
      exists (x :: g1), g2. subst g. repeat split; try assumption.
      intros y [<-|Hy]; [exact Hlt|exact (H1 y Hy)].
    + exists [], (x :: g). repeat split; [contradiction| |exact Hsi].
      intros y [<-|Hy]; [exact Hge|].
      pose proof (strictly_increasing_head g x y Hsi Hy). lra.
Qed.

(** The regimes after the first are the regimes of the remaining
    limits. *)
Lemma regime_samples_shift (a : Q) (t g : list Q) (ks : list nat) :
  flat_map (regime_samples (a :: t) g) (map S ks) = flat_map (regime_samples t g) ks.
Proof.
  induction ks as [|k ks IH]; [reflexivity|]. simpl. rewrite IH. reflexivity.
Qed.

(** Samples before the first limit are in no regime's output. *)
Lemma regime_samples_drop_prefix (t g1 g2 : list Q) (ks : list nat) :
  strictly_increasing t ->
  (forall x, In x g1 -> (x < hd 0 t)%Q) ->
  flat_map (regime_samples t (g1 ++ g2)) ks = flat_map (regime_samples t g2) ks.
Proof.
  intros Hsi Hbefore. apply flat_map_ext. intro k.
  unfold regime_samples. rewrite filter_app, filter_none; [reflexivity|].
  intros x Hx. destruct (regime_output t k x) eqn:E; [exfalso|reflexivity].
  apply regime_output_true in E. destruct E as [Hk [Hlo _]].
  pose proof (strictly_increasing_nth_le t 0 k Hsi ltac:(lia) ltac:(lia)) as Hle.
  pose proof (Hbefore x Hx) as Hlt.
  assert (Hhd : hd 0%Q t = nth 0 t 0%Q) by (destruct t; reflexivity).
  rewrite Hhd in Hlt. lra.
Qed.

(** On a sorted grid inside the domain the outputs of the regimes, one
    after the other, are the grid itself. *)
Lemma driver_samples_sorted (l : list Q) :
  forall g, (2 <= List.length l)%nat -> strictly_increasing l ->
    strictly_increasing g ->
    (forall x, In x g -> (hd 0 l <= x /\ x <= last l 0)%Q) ->
    driver_samples l g = g.
Proof.
  induction l as [|a t IH]; intros g Hlen Hsi Hg Hdom; [simpl in Hlen; lia|].
  destruct t as [|b r]; [simpl in Hlen; lia|].
  destruct r as [|c r].
  - unfold driver_samples. simpl. rewrite app_nil_r. apply filter_all.
    intros x Hx. apply regime_output_true. destruct (Hdom x Hx) as [Hlo Hhi].
    simpl in *. repeat split; try lia; assumption.
  - destruct (sorted_grid_split b g Hg) as [g1 [g2 [-> [H1 [H2 Hg2]]]]].
    unfold driver_samples.
    change (List.length (a :: b :: c :: r) - 1)%nat
      with (S (List.length (b :: c :: r) - 1)).
    change (seq 0 (S (List.length (b :: c :: r) - 1)))
      with (0%nat :: seq 1 (List.length (b :: c :: r) - 1)).
    rewrite <- seq_shift. cbn [flat_map]. rewrite regime_samples_shift.
    rewrite regime_samples_drop_prefix.
    2:{ exact (strictly_increasing_tail a _ Hsi). }
    2:{ exact H1. }
    fold (driver_samples (b :: c :: r) g2).
    rewrite IH.
    + f_equal. unfold regime_samples. rewrite filter_app.
      rewrite filter_all, filter_none; [apply app_nil_r| |].
      * intros x Hx. destruct (regime_output (a :: b :: c :: r) 0 x) eqn:E; [|reflexivity].
        apply regime_output_true in E. destruct E as [_ [_ E]]. simpl in E.
        pose proof (H2 x Hx). lra.
      * intros x Hx. apply regime_output_true.
        destruct (Hdom x (in_or_app _ _ _ (or_introl Hx))) as [Hlo _].
        simpl in *. repeat split; try lia; [exact Hlo|exact (H1 x Hx)].
    + simpl. lia.
    + exact (strictly_increasing_tail a _ Hsi).
    + exact Hg2.
    + intros x Hx. split; [exact (H2 x Hx)|].
      destruct (Hdom x (in_or_app _ _ _ (or_intror Hx))) as [_ Hhi]. exact Hhi.
Qed.

Lemma nth_map_seq (A : Type) (f : nat -> A) (m k : nat) (d : A) :
  (k < m)%nat -> nth k (map f (seq 0 m)) d = f k.
Proof.
  intro Hk. rewrite (nth_indep _ d (f 0%nat)) by (rewrite length_map, length_seq; exact Hk).
  rewrite map_nth, seq_nth by exact Hk. reflexivity.
Qed.



Lemma three_regimes_ordered : ordered_ending_limits three_regimes (-10000) 0.
Proof.
  unfold ordered_ending_limits, three_regimes. simpl.
  repeat split; try lia; reflexivity.
Qed.

(** The limits of three regimes between z = 10000 and z = 0, and the
    samples each regime gives on a grid that holds the limits. *)
Example three_regimes_limits :
  thermodynamics_set_approximation_limits three_regimes (-10000) 0
  = _SUCCESS_ (3%nat, [-10000; -8000; -3000; 0]%Q).
Proof. vm_compute. reflexivity. Qed.

Example three_regimes_samples :
  let limits := [-10000; -8000; -3000; 0]%Q in
  let mz_output := [-10000; -9000; -8000; -5000; -3000; -1; 0]%Q in
  regime_samples limits mz_output 0 = [-10000; -9000]%Q /\
  regime_samples limits mz_output 1 = [-8000; -5000]%Q /\
  regime_samples limits mz_output 2 = [-3000; -1; 0]%Q /\
  driver_samples limits mz_output = mz_output.
Proof. vm_compute. repeat split; reflexivity. Qed.

Example three_regimes_list :
  regime_list three_regimes [-10000; -8000; -3000; 0]%Q
  = [(0%nat, - -10000, 50); (1%nat, - -8000, 50); (2%nat, - -3000, 2)]%Q.
Proof. reflexivity. Qed.

Example inverted_bounds_rejected :
  thermodynamics_set_approximation_limits three_regimes 0 (-10000)
  = _FAILURE_ "thermodynamics_set_approximation_limits: the requested bounds are inverted"%string.
Proof. vm_compute. reflexivity. Qed.


(** ** Further properties of the smooth steps *)

Section SmoothSteps.

Local Open Scope R_scope.

(** Both macros factor: the zeros and the ones of each are read off these
    products. *)
Lemma f1_factored (x : R) :
  f1 x = 0.25 * ((x + 1) * (x + 1)) * (2 - x) /\
  1 - f1 x = 0.25 * ((x - 1) * (x - 1)) * (x + 2).
Proof. unfold f1. split; lra. Qed.

Lemma f2_factored (x : R) :
  f2 x = (x * x) * (3 - 2 * x) /\
  1 - f2 x = ((x - 1) * (x - 1)) * (2 * x + 1).
Proof. unfold f2. split; lra. Qed.

Lemma square_zero (a : R) : a * a = 0 -> a = 0.
Proof. intro H. destruct (Rmult_integral _ _ H); assumption. Qed.

Lemma quadratic_form_nonneg (a b : R) : 0 <= a * a + a * b + b * b.
Proof.
  replace (a * a + a * b + b * b)
    with ((a + b / 2) * (a + b / 2) + 0.75 * (b * b)) by lra.
  pose proof (Rle_0_sqr (a + b / 2)) as H1. pose proof (Rle_0_sqr b) as H2.
  unfold Rsqr in H1, H2. lra.
Qed.

(** [f1] is [f2] on the window [-1,1] brought to [0,1]: the two macros
    are one smooth step, [f1(x) = f2((x+1)/2)], at every x. *)
Theorem f1_is_f2_rescaled (x : R) : f1 x = f2 ((x + 1) / 2).
Proof. unfold f1, f2. lra. Qed.

(** The weight a step gives and the weight it gives at the mirrored point
    add up to 1: [f1(-x) = 1 - f1(x)] and [f2(1-x) = 1 - f2(x)], at every
    x. *)
Theorem smooth_steps_complementary (x : R) :
  f1 (- x) = 1 - f1 x /\ f2 (1 - x) = 1 - f2 x.
Proof. unfold f1, f2. split; lra. Qed.

(** Inside its window each step increases strictly, so distinct points of
    the window get distinct weights. *)
Theorem smooth_steps_strictly_increasing :
  (forall x y, -1 <= x -> x < y -> y <= 1 -> f1 x < f1 y) /\
  (forall x y, 0 <= x -> x < y -> y <= 1 -> f2 x < f2 y).
Proof.
  split; intros x y Hx Hxy Hy.
  - unfold f1.
    assert (E : (-0.75 * y * (y * y / 3 - 1) + 0.5) - (-0.75 * x * (x * x / 3 - 1) + 0.5)
                = 0.25 * (y - x) * (3 - (x * x + x * y + y * y))) by lra.
    assert (0 <= (1 - x) * (1 + x)) by (apply Rmult_le_pos; lra).
    assert (0 <= (1 - y) * (1 + y)) by (apply Rmult_le_pos; lra).
    assert (0 < (1 - x) * (1 + y)) by (apply Rmult_lt_0_compat; lra).
    assert (0 <= (1 + x) * (1 - y)) by (apply Rmult_le_pos; lra).
    assert (0 < 0.25 * (y - x) * (3 - (x * x + x * y + y * y))).
    { apply Rmult_lt_0_compat; [lra|]. nra. }
    lra.
  - unfold f2.
    assert (E : y * y * (0.5 - y / 3) * 6 - x * x * (0.5 - x / 3) * 6
                = (y - x) * (3 * (x + y) - 2 * (x * x + x * y + y * y))) by lra.
    assert (0 <= x * (1 - x)) by (apply Rmult_le_pos; lra).
    assert (0 <= y * (1 - y)) by (apply Rmult_le_pos; lra).
    assert (0 <= x * (1 - y)) by (apply Rmult_le_pos; lra).
    assert (0 < (1 - x) * y) by (apply Rmult_lt_0_compat; lra).
    assert (0 < (y - x) * (3 * (x + y) - 2 * (x * x + x * y + y * y))).
    { apply Rmult_lt_0_compat; [lra|]. nra. }
    lra.
Qed.

(** Inside its window each step is a weight: between 0 and 1, and
    strictly between them away from the two ends. *)
Theorem smooth_steps_range :
  (forall x, -1 <= x <= 1 -> 0 <= f1 x <= 1) /\
  (forall x, -1 < x < 1 -> 0 < f1 x < 1) /\
  (forall x, 0 <= x <= 1 -> 0 <= f2 x <= 1) /\
  (forall x, 0 < x < 1 -> 0 < f2 x < 1).
Proof.
  repeat split.
  - destruct (f1_factored x) as [-> _].
    apply Rmult_le_pos; [|lra]. apply Rmult_le_pos; [lra|]. nra.
  - destruct (f1_factored x) as [_ E].
    assert (0 <= 0.25 * ((x - 1) * (x - 1)) * (x + 2)); [|lra].
    apply Rmult_le_pos; [|lra]. apply Rmult_le_pos; [lra|]. nra.
  - destruct (f1_factored x) as [-> _].
    apply Rmult_lt_0_compat; [|lra]. apply Rmult_lt_0_compat; [lra|]. nra.
  - destruct (f1_factored x) as [_ E].
    assert (0 < 0.25 * ((x - 1) * (x - 1)) * (x + 2)); [|lra].
    apply Rmult_lt_0_compat; [|lra]. apply Rmult_lt_0_compat; [lra|]. nra.
  - destruct (f2_factored x) as [-> _].
    apply Rmult_le_pos; [|lra]. nra.
  - destruct (f2_factored x) as [_ E].
    assert (0 <= ((x - 1) * (x - 1)) * (2 * x + 1)); [|lra].
    apply Rmult_le_pos; [|lra]. nra.
  - destruct (f2_factored x) as [-> _].
    apply Rmult_lt_0_compat; [|lra]. nra.
  - destruct (f2_factored x) as [_ E].
    assert (0 < ((x - 1) * (x - 1)) * (2 * x + 1)); [|lra].
    apply Rmult_lt_0_compat; [|lra]. nra.
Qed.

(** The macros do not clamp their argument.  [f1] is 0 only at -1 and at
    2 and is 1 only at 1 and at -2; past 2 it is negative and before -2 it
    is above 1.  [f2] is 0 only at 0 and at 3/2 and is 1 only at 1 and at
    -1/2; past 3/2 it is negative and before -1/2 it is above 1.  So after
    the end of its window a step falls back below 1, and before the start
    it rises above 0. *)
Theorem smooth_steps_not_clamped :
  (forall x, f1 x = 0 <-> x = -1 \/ x = 2) /\
  (forall x, f1 x = 1 <-> x = 1 \/ x = -2) /\
  (forall x, 2 < x -> f1 x < 0) /\
  (forall x, x < -2 -> 1 < f1 x) /\
  (forall x, f2 x = 0 <-> x = 0 \/ x = 1.5) /\
  (forall x, f2 x = 1 <-> x = 1 \/ x = -0.5) /\
  (forall x, 1.5 < x -> f2 x < 0) /\
  (forall x, x < -0.5 -> 1 < f2 x).
Proof.
  repeat split.
  - intro H. destruct (f1_factored x) as [E _]. rewrite E in H.
    destruct (Rmult_integral _ _ H) as [H1|H1]; [left|right; lra].
    destruct (Rmult_integral _ _ H1) as [H2|H2]; [lra|].
    apply square_zero in H2. lra.
  - intros [->| ->]; unfold f1; lra.
  - intro H. destruct (f1_factored x) as [_ E].
    assert (H0 : 0.25 * ((x - 1) * (x - 1)) * (x + 2) = 0) by lra.
    destruct (Rmult_integral _ _ H0) as [H1|H1]; [left|right; lra].
    destruct (Rmult_integral _ _ H1) as [H2|H2]; [lra|].
    apply square_zero in H2. lra.
  - intros [->| ->]; unfold f1; lra.
  - intros x Hx. destruct (f1_factored x) as [-> _].
    assert (0 < 0.25 * ((x + 1) * (x + 1)) * (x - 2)); [|lra].
    apply Rmult_lt_0_compat; [|lra]. apply Rmult_lt_0_compat; [lra|]. nra.
  - intros x Hx. destruct (f1_factored x) as [_ E].
    assert (0 < 0.25 * ((x - 1) * (x - 1)) * (- (x + 2))); [|lra].
    apply Rmult_lt_0_compat; [|lra]. apply Rmult_lt_0_compat; [lra|]. nra.
  - intro H. destruct (f2_factored x) as [E _]. rewrite E in H.
    destruct (Rmult_integral _ _ H) as [H1|H1]; [left|right; lra].
    apply square_zero in H1. exact H1.
  - intros [->| ->]; unfold f2; lra.
  - intro H. destruct (f2_factored x) as [_ E].
    assert (H0 : ((x - 1) * (x - 1)) * (2 * x + 1) = 0) by lra.
    destruct (Rmult_integral _ _ H0) as [H1|H1]; [left|right; lra].
    apply square_zero in H1. lra.
  - intros [->| ->]; unfold f2; lra.
  - intros x Hx. destruct (f2_factored x) as [-> _].
    assert (0 < (x * x) * (2 * x - 3)); [|lra].
    apply Rmult_lt_0_compat; [|lra]. nra.
  - intros x Hx. destruct (f2_factored x) as [_ E].
    assert (0 < ((x - 1) * (x - 1)) * (- (2 * x + 1))); [|lra].
    apply Rmult_lt_0_compat; [|lra]. nra.
Qed.

(** A step never rises faster than its slope at the centre of the
    window: 0.75 per unit for [f1] and 1.5 per unit for [f2], whatever the
    two points. *)
Theorem smooth_steps_slope_bound :
  (forall x y, x <= y -> f1 y - f1 x <= 0.75 * (y - x)) /\
  (forall x y, x <= y -> f2 y - f2 x <= 1.5 * (y - x)) /\
  (forall x, f1_deriv x <= f1_deriv 0 /\ f1_deriv 0 = 0.75) /\
  (forall x, f2_deriv x <= f2_deriv 0.5 /\ f2_deriv 0.5 = 1.5).
Proof.
  repeat split.
  - intros x y Hxy. unfold f1.
    assert (E : 0.75 * (y - x)
                - ((-0.75 * y * (y * y / 3 - 1) + 0.5) - (-0.75 * x * (x * x / 3 - 1) + 0.5))
                = 0.25 * (y - x) * (x * x + x * y + y * y)) by lra.
    assert (0 <= 0.25 * (y - x) * (x * x + x * y + y * y)); [|lra].
    apply Rmult_le_pos; [lra|]. apply quadratic_form_nonneg.
  - intros x y Hxy. unfold f2.
    assert (E : 1.5 * (y - x) - (y * y * (0.5 - y / 3) * 6 - x * x * (0.5 - x / 3) * 6)
                = (y - x) * (2 * ((x - 0.5) * (x - 0.5) + (x - 0.5) * (y - 0.5)
                                  + (y - 0.5) * (y - 0.5)))) by lra.
    assert (0 <= (y - x) * (2 * ((x - 0.5) * (x - 0.5) + (x - 0.5) * (y - 0.5)
                                 + (y - 0.5) * (y - 0.5)))); [|lra].
    apply Rmult_le_pos; [lra|].
    pose proof (quadratic_form_nonneg (x - 0.5) (y - 0.5)). lra.
  - unfold f1_deriv. pose proof (Rle_0_sqr x) as H. unfold Rsqr in H. lra.
  - unfold f1_deriv. lra.
  - unfold f2_deriv. pose proof (Rle_0_sqr (x - 0.5)) as H. unfold Rsqr in H. lra.
  - unfold f2_deriv. lra.
Qed.

End SmoothSteps.

Lemma smooth_steps_strictly_increasing_inside :
  (f1 (-0.5) < f1 0.5 /\ f2 0.25 < f2 0.75)%R.
Proof.
  destruct smooth_steps_strictly_increasing as [M1 M2].
  split; [apply M1; lra|apply M2; lra].
Defined.

Lemma smooth_steps_range_inside :
  (0 < f1 0.5 < 1 /\ 0 < f2 0.25 < 1)%R.
Proof.
  destruct smooth_steps_range as [_ [R1 [_ R2]]].
  split; [apply R1; lra|apply R2; lra].
Defined.

Lemma smooth_steps_not_clamped_outside :
  (f1 3 < 0 /\ 1 < f2 (-1))%R.
Proof.
  destruct smooth_steps_not_clamped as [_ [_ [N1 [_ [_ [_ [_ N2]]]]]]].
  split; [apply N1; lra|apply N2; lra].
Defined.

Lemma smooth_steps_slope_bound_inside :
  (f1 0.5 - f1 (-0.5) <= 0.75 * (0.5 - -0.5))%R.
Proof.
  destruct smooth_steps_slope_bound as [S1 _]. apply S1. lra.
Defined.

(** On binary64 the rounding of each operation shows inside the windows:
    there is a double strictly between -1 and 1 at which [f1] is negative,
    and there are neighbouring doubles inside the windows at which [f1]
    and [f2] decrease.  (Evaluated operation by operation, rounding to
    nearest.) *)
Theorem smooth_steps_binary64_rounding :
  (exists x : float,
     (-1 <? x)%float = true /\ (x <? 1)%float = true /\
     (f1_float x <? 0)%float = true) /\
  (exists x : float,
     (-1 <=? x)%float = true /\ (next_up x <=? 1)%float = true /\
     (f1_float (next_up x) <? f1_float x)%float = true) /\
  (exists x : float,
     (0 <=? x)%float = true /\ (next_up x <=? 1)%float = true /\
     (f2_float (next_up x) <? f2_float x)%float = true).
Proof.
  split; [|split].
  - exists (next_up (next_up (next_up (-1)%float))). repeat split; reflexivity.
  - exists (next_up (next_up (-1)%float)). repeat split; reflexivity.
  - exists 0.734375%float. repeat split; reflexivity.
Qed.

(** ** The limits on the helium fraction *)

(** An admissible helium fraction, between [_YHE_SMALL_] and [_YHE_BIG_],
    is never the flag [_YHE_BBN_], and it is a proper fraction: strictly
    between 0 and 1. *)
Theorem helium_flag_outside_limits (YHe : R) :
  (_YHE_SMALL_ <= YHe <= _YHE_BIG_)%R ->
  YHe <> _YHE_BBN_ /\ (0 < YHe < 1)%R.
Proof.
  unfold _YHE_SMALL_, _YHE_BIG_, _YHE_BBN_. intros [Hlo Hhi].
  split; [intro E|]; lra.
Qed.

Lemma helium_flag_outside_limits_quarter :
  (_YHE_SMALL_ <= 0.25 <= _YHE_BIG_)%R /\ 0.25%R <> _YHE_BBN_.
Proof.
  assert (H : (_YHE_SMALL_ <= 0.25 <= _YHE_BIG_)%R)
    by (unfold _YHE_SMALL_, _YHE_BIG_; lra).
  split; [exact H|]. apply (helium_flag_outside_limits 0.25%R H).
Defined.
